(** * GridIndex2D: a uniform-grid spatial index over 2D points

    Shallow embedding of [include/grid_index.h] and the properties of its
    construction, insertion, cell-range resolution and box queries.

    Modelling choices.
    - The template parameter [T] (the coordinate type) is instantiated with
      the exact rationals [Q]: subtraction, division, [std::floor],
      [std::ceil] and the comparisons are the exact ones.  Rounding, infinities
      and NaN of [float]/[double] are outside this model.
    - [int] is [Z]; the conversions [static_cast<int>] and the arithmetic on
      cell indices are taken in their defined range (C++ gives no meaning to
      an out-of-range conversion or to signed overflow).
    - [size_t] identifiers are [N]; [std::vector] is [list].
    - [grid_[cell_id]] has no bounds check in C++: an index outside the
      vector is undefined behaviour.  Here such an access yields [None], so
      every operation that reads a bucket returns an [option]; [Some] means
      that all accesses stayed inside the bucket array. *)

From Stdlib Require Import ZArith QArith Qround Lia Lqa String.
From Stdlib Require Import PrimFloat FloatOps SpecFloat Uint63.
From stdpp Require Import base option list sorting.

Local Open Scope Z_scope.

(** A decimal literal of type [float] denotes the nearest [double], as in
    C++. *)
#[local] Set Warnings "-inexact-float".

(** ** Primitive operations of the coordinate and index types *)

(** [std::floor] on the coordinate type: an integral value of type [T]. *)
Definition std_floor (v : Q) : Q := inject_Z (Qfloor v).

(** [std::ceil] on the coordinate type. *)
Definition std_ceil (v : Q) : Q := inject_Z (Qceiling v).

(** [static_cast<int>]: conversion to [int] truncates towards zero. *)
Definition static_cast_int (v : Q) : Z := Z.quot (Qnum v) (Zpos (Qden v)).

(** [a > b] on coordinates. *)
Definition Qgt_bool (a b : Q) : bool :=
  match (a ?= b)%Q with Gt => true | _ => false end.

(** [a >= b] on coordinates. *)
Definition Qge_bool (a b : Q) : bool := Qle_bool b a.

(** [std::max] and [std::min] on [int]. *)
Definition std_max (a b : Z) : Z := if a <? b then b else a.
Definition std_min (a b : Z) : Z := if b <? a then b else a.

(** [v[k]] for an [int] index [k]: the index is converted to [size_t], so a
    negative [k] is far outside the vector. *)
Definition at_index {A : Type} (v : list A) (k : Z) : option A :=
  if k <? 0 then None else v !! Z.to_nat k.

(** [for (int k = lo; k <= hi; ++k) body]: the body runs [hi - lo + 1] times
    when [lo <= hi] and not at all otherwise. *)
Fixpoint for_iter {S : Type} (n : nat) (k : Z)
    (body : Z → S → option S) (s : S) : option S :=
  match n with
  | O => Some s
  | Datatypes.S n' => s' ← body k s; for_iter n' (k + 1) body s'
  end.

Definition for_range {S : Type} (lo hi : Z)
    (body : Z → S → option S) (s : S) : option S :=
  for_iter (Z.to_nat (hi + 1 - lo)) lo body s.

(** ** The data structure *)

(** [std::invalid_argument], the only exception the class throws. *)
Inductive error : Type :=
  | InvalidParameter (what : string).

Record GridIndex2D : Type := mkGrid {
  x_start_ : Q; x_end_ : Q; x_step_ : Q;
  y_start_ : Q; y_end_ : Q; y_step_ : Q;
  nx_ : Z; ny_ : Z;
  grid_ : list (list N)
}.

(** A grid with the same bounds and dimensions and another bucket array. *)
Definition with_grid (g : GridIndex2D) (b : list (list N)) : GridIndex2D :=
  mkGrid (x_start_ g) (x_end_ g) (x_step_ g)
         (y_start_ g) (y_end_ g) (y_step_ g) (nx_ g) (ny_ g) b.

(** The constructor [GridIndex2D::GridIndex2D].  [grid_.resize(nx_ * ny_)]
    leaves [nx_ * ny_] empty buckets; the product is positive whenever the
    checks pass (see [construct_inv]). *)
Definition construct (x_start x_end x_step y_start y_end y_step : Q)
    : error + GridIndex2D :=
  if Qle_bool x_step 0 || Qle_bool y_step 0 then
    inl (InvalidParameter "Step values must be positive")
  else if Qge_bool x_start x_end || Qge_bool y_start y_end then
    inl (InvalidParameter "Start must be less than end")
  else
    let nx := static_cast_int (std_ceil ((x_end - x_start) / x_step)) in
    let ny := static_cast_int (std_ceil ((y_end - y_start) / y_step)) in
    inr (mkGrid x_start x_end x_step y_start y_end y_step nx ny
                (replicate (Z.to_nat (nx * ny)) [])).

Definition get_cell_x (g : GridIndex2D) (x : Q) : Z :=
  let i := static_cast_int (std_floor ((x - x_start_ g) / x_step_ g)) in
  std_max 0 (std_min i (nx_ g - 1)).

Definition get_cell_y (g : GridIndex2D) (y : Q) : Z :=
  let j := static_cast_int (std_floor ((y - y_start_ g) / y_step_ g)) in
  std_max 0 (std_min j (ny_ g - 1)).

Definition get_cell_id (g : GridIndex2D) (i j : Z) : Z := j * nx_ g + i.

Definition insert (g : GridIndex2D) (x y : Q) (index : N)
    : option GridIndex2D :=
  let i := get_cell_x g x in
  let j := get_cell_y g y in
  let cell_id := get_cell_id g i j in
  cell ← at_index (grid_ g) cell_id;
  Some (with_grid g (<[Z.to_nat cell_id := cell ++ [index]]> (grid_ g))).

(** The four outputs of [get_cell_range]. *)
Record cell_range : Type := mkRange {
  i_min : Z; i_max : Z; j_min : Z; j_max : Z
}.

Definition get_cell_range (g : GridIndex2D) (x1 x2 y1 y2 : Q)
    (include_min include_max : bool) : cell_range :=
  let '(x1, x2) := if Qgt_bool x1 x2 then (x2, x1) else (x1, x2) in
  let '(y1, y2) := if Qgt_bool y1 y2 then (y2, y1) else (y1, y2) in
  let i_min := static_cast_int (std_floor ((x1 - x_start_ g) / x_step_ g)) in
  let i_max := static_cast_int (std_floor ((x2 - x_start_ g) / x_step_ g)) in
  let j_min := static_cast_int (std_floor ((y1 - y_start_ g) / y_step_ g)) in
  let j_max := static_cast_int (std_floor ((y2 - y_start_ g) / y_step_ g)) in
  let '(i_min, j_min) :=
    if negb include_min then
      let x1_normalized := ((x1 - x_start_ g) / x_step_ g)%Q in
      let i_min :=
        if Qeq_bool x1_normalized (std_floor x1_normalized)
        then i_min + 1 else i_min in
      let y1_normalized := ((y1 - y_start_ g) / y_step_ g)%Q in
      let j_min :=
        if Qeq_bool y1_normalized (std_floor y1_normalized)
        then j_min + 1 else j_min in
      (i_min, j_min)
    else (i_min, j_min) in
  let '(i_max, j_max) :=
    if negb include_max then
      let x2_normalized := ((x2 - x_start_ g) / x_step_ g)%Q in
      let i_max :=
        if Qeq_bool x2_normalized (std_floor x2_normalized)
        then i_max - 1 else i_max in
      let y2_normalized := ((y2 - y_start_ g) / y_step_ g)%Q in
      let j_max :=
        if Qeq_bool y2_normalized (std_floor y2_normalized)
        then j_max - 1 else j_max in
      (i_max, j_max)
    else (i_max, j_max) in
  mkRange (std_max 0 (std_min i_min (nx_ g - 1)))
          (std_max 0 (std_min i_max (nx_ g - 1)))
          (std_max 0 (std_min j_min (ny_ g - 1)))
          (std_max 0 (std_min j_max (ny_ g - 1))).

Definition query_box (g : GridIndex2D) (x1 x2 y1 y2 : Q)
    (include_min include_max : bool) : option (list N) :=
  let result := [] in
  let r := get_cell_range g x1 x2 y1 y2 include_min include_max in
  for_range (j_min r) (j_max r) (λ j result,
    for_range (i_min r) (i_max r) (λ i result,
      let cell_id := get_cell_id g i j in
      cell ← at_index (grid_ g) cell_id;
      Some (result ++ cell)) result) result.

Definition query_box_no_alloc (g : GridIndex2D) (x1 x2 y1 y2 : Q)
    (result : list N) (append_results include_min include_max : bool)
    : option (list N) :=
  let result := if negb append_results then [] else result in
  let r := get_cell_range g x1 x2 y1 y2 include_min include_max in
  for_range (j_min r) (j_max r) (λ j result,
    for_range (i_min r) (i_max r) (λ i result,
      let cell_id := get_cell_id g i j in
      cell ← at_index (grid_ g) cell_id;
      Some (result ++ cell)) result) result.

(** The callback acts on the caller's state [S]; it is passed in
    state-passing form, and [for (size_t idx : cell) callback(idx)] is a left
    fold over the bucket. *)
Definition query_box_callback {S : Type} (g : GridIndex2D) (x1 x2 y1 y2 : Q)
    (callback : N → S → S) (include_min include_max : bool) (s : S)
    : option S :=
  let r := get_cell_range g x1 x2 y1 y2 include_min include_max in
  for_range (j_min r) (j_max r) (λ j s,
    for_range (i_min r) (i_max r) (λ i s,
      let cell_id := get_cell_id g i j in
      cell ← at_index (grid_ g) cell_id;
      Some (foldl (λ s idx, callback idx s) s cell)) s) s.

Definition clear (g : GridIndex2D) : GridIndex2D :=
  with_grid g ((λ _, []) <$> grid_ g).

Definition get_num_cells (g : GridIndex2D) : nat := length (grid_ g).

Definition get_num_points (g : GridIndex2D) : nat :=
  foldl (λ count cell, (count + length cell)%nat) 0%nat (grid_ g).

Definition get_dimensions (g : GridIndex2D) : Z * Z := (nx_ g, ny_ g).

Definition get_bounds (g : GridIndex2D) : Q * Q * Q * Q :=
  (x_start_ g, x_end_ g, y_start_ g, y_end_ g).

(** ** Sequences of calls *)

(** A sequence of calls [g.insert(x, y, index)], one per element of [pts]. *)
Fixpoint insert_all (g : GridIndex2D) (pts : list (Q * Q * N))
    : option GridIndex2D :=
  match pts with
  | [] => Some g
  | (x, y, index) :: pts' => g' ← insert g x y index; insert_all g' pts'
  end.

Definition build (x_start x_end x_step y_start y_end y_step : Q)
    (pts : list (Q * Q * N)) : option GridIndex2D :=
  match construct x_start x_end x_step y_start y_end y_step with
  | inl _ => None
  | inr g => insert_all g pts
  end.

(** ** Specification-level notions used in the statements *)

(** Clamping of a cell index into [[0, n - 1]]. *)
Definition clamp_index (n k : Z) : Z := Z.max 0 (Z.min k (n - 1)).

(** The values taken by the variable of [for (k = lo; k <= hi; ++k)]. *)
Definition index_range (lo hi : Z) : list Z := seqZ lo (hi + 1 - lo).

(** The flat bucket indices read by a traversal of the range [r], in the
    order of the two nested loops. *)
Definition visited_cells (g : GridIndex2D) (r : cell_range) : list Z :=
  j ← index_range (j_min r) (j_max r);
  i ← index_range (i_min r) (i_max r);
  [get_cell_id g i j].

(** The buckets read by a traversal, [None] if one read is out of range. *)
Definition selected_buckets (g : GridIndex2D) (r : cell_range)
    : option (list (list N)) :=
  mapM (at_index (grid_ g)) (visited_cells g r).

(** Sequential composition of a fallible body over a list of indices. *)
Fixpoint fold_opt {A S : Type} (f : A → S → option S) (l : list A) (s : S)
    : option S :=
  match l with
  | [] => Some s
  | a :: l' => s' ← f a s; fold_opt f l' s'
  end.

(** The raw cell index [floor((v - start) / step)] of a coordinate. *)
Definition raw_index (start step v : Q) : Z := Qfloor ((v - start) / step).

(** [v] lies exactly on a cell boundary of the axis. *)
Definition on_boundary (start step v : Q) : bool :=
  Qeq_bool ((v - start) / step) (inject_Z (Qfloor ((v - start) / step))).

(** The lower and the upper query boundary after the swap of the code. *)
Definition lower (v1 v2 : Q) : Q := if Qgt_bool v1 v2 then v2 else v1.
Definition upper (v1 v2 : Q) : Q := if Qgt_bool v1 v2 then v1 else v2.

Definition axis_min (start step : Q) (n : Z) (v : Q) (include_min : bool) : Z :=
  clamp_index n
    (if negb include_min && on_boundary start step v
     then raw_index start step v + 1 else raw_index start step v).

Definition axis_max (start step : Q) (n : Z) (v : Q) (include_max : bool) : Z :=
  clamp_index n
    (if negb include_max && on_boundary start step v
     then raw_index start step v - 1 else raw_index start step v).

(** Both query boundaries [v1] and [v2] of an axis lie on the cell boundary
    number [k]: [(v - start) / step] is the integer [k] for both. *)
Definition same_boundary (start step v1 v2 : Q) (k : Z) : Prop :=
  ((v1 - start) / step == inject_Z k)%Q
  ∧ ((v2 - start) / step == inject_Z k)%Q.

(** The error condition of the constructor, as the specification words it. *)
Definition invalid_parameters (x_start x_end x_step y_start y_end y_step : Q)
    : Prop :=
  (x_step <= 0)%Q ∨ (y_step <= 0)%Q
  ∨ (x_start >= x_end)%Q ∨ (y_start >= y_end)%Q.

(** ** Reachable grid states and their invariant *)

(** The states a client can observe: a grid that the constructor returned,
    followed by any number of insertions and clears. *)
Inductive reachable : GridIndex2D → Prop :=
  | reachable_construct x_start x_end x_step y_start y_end y_step g :
      construct x_start x_end x_step y_start y_end y_step = inr g →
      reachable g
  | reachable_insert g x y index g' :
      reachable g → insert g x y index = Some g' → reachable g'
  | reachable_clear g :
      reachable g → reachable (clear g).

Record grid_inv (g : GridIndex2D) : Prop := mkInv {
  inv_x_step : (0 < x_step_ g)%Q;
  inv_y_step : (0 < y_step_ g)%Q;
  inv_x_bounds : (x_start_ g < x_end_ g)%Q;
  inv_y_bounds : (y_start_ g < y_end_ g)%Q;
  inv_nx : nx_ g = Qceiling ((x_end_ g - x_start_ g) / x_step_ g);
  inv_ny : ny_ g = Qceiling ((y_end_ g - y_start_ g) / y_step_ g);
  inv_cells : Z.of_nat (length (grid_ g)) = nx_ g * ny_ g
}.

(** ** Concrete grids *)

(** [GridIndex2D grid(0, 10, 1, 0, 10, 1)], the grid of the edge-handling
    tests. *)
Definition grid10 : GridIndex2D :=
  mkGrid 0 10 1 0 10 1 10 10 (replicate 100 []).

(** The grid of [test_edge_handling_default_params]: identifier 0 at
    [(5, 5)], in bucket [5 * 10 + 5], and identifier 1 at [(6, 6)], in bucket
    [6 * 10 + 6]. *)
Definition edge_test_grid : GridIndex2D :=
  with_grid grid10 (<[66%nat := [1%N]]> (<[55%nat := [0%N]]> (grid_ grid10))).

(** The 10 by 10 grid with identifier 7 at [(1/2, 1/2)], in bucket 0. *)
Definition corner_grid : GridIndex2D :=
  with_grid grid10 (<[0%nat := [7%N]]> (grid_ grid10)).

(** The grid over [[0, 10) x [0, 10)] with step 1 that holds identifier 7 at
    [(19/2, 19/2)], in the last bucket [9 * 10 + 9]. *)
Definition last_cell_grid : GridIndex2D :=
  with_grid grid10 (<[99%nat := [7%N]]> (grid_ grid10)).

(** ** The example program [examples/performance_example.cpp] *)

(** [struct Point { double x, y; int data; }]. *)
Module Point.
Record Point : Type := mk { x : Q; y : Q; data : Z }.
End Point.

(** [naive_box_search]: the linear scan the example compares the grid with.
    The loop runs for [i = 0 .. points.size() - 1]; [points[i]] is an
    unchecked access like [grid_[cell_id]]. *)
Definition naive_box_search (points : list Point.Point) (x1 x2 y1 y2 : Q)
    : option (list N) :=
  let result := [] in
  for_range 0 (Z.of_nat (length points) - 1) (λ i result,
    p ← at_index points i;
    if Qge_bool (Point.x p) x1 && Qle_bool (Point.x p) x2 &&
       Qge_bool (Point.y p) y1 && Qle_bool (Point.y p) y2
    then Some (result ++ [Z.to_N i]) else Some result) result.


(** ** Further notions used in the statements *)


(** The identifier [id] is held by the bucket of cell [(i, j)]. *)
Definition stored_at (g : GridIndex2D) (i j : Z) (id : N) : Prop :=
  ∃ cell, at_index (grid_ g) (get_cell_id g i j) = Some cell ∧ id ∈ cell.

(** The position in [grid_] of the bucket that [insert(x, y, _)] extends. *)
Definition cell_of (g : GridIndex2D) (x y : Q) : nat :=
  Z.to_nat (get_cell_id g (get_cell_x g x) (get_cell_y g y)).

(** The identifiers of the calls in [pts] that go to the bucket at position
    [c], in the order of the calls. *)
Definition ids_for_cell (g : GridIndex2D) (c : nat) (pts : list (Q * Q * N))
    : list N :=
  (λ p, p.2) <$> filter (λ p, cell_of g p.1.1 p.1.2 = c) pts.

(** The exact test of [naive_box_search] on one point. *)
Definition in_box (x1 x2 y1 y2 : Q) (p : Point.Point) : Prop :=
  ((x1 <= Point.x p)%Q ∧ (Point.x p <= x2)%Q)
  ∧ ((y1 <= Point.y p)%Q ∧ (Point.y p <= y2)%Q).

(** The same test on the point that an identifier returned by a query of the
    indexed grid refers to. *)
Definition id_in_box (points : list Point.Point) (x1 x2 y1 y2 : Q) (id : N)
    : Prop :=
  ∃ p, points !! N.to_nat id = Some p ∧ in_box x1 x2 y1 y2 p.


(** * The instantiation [GridIndex2D<double>] *)

(** The same code with the coordinate type [double] (IEEE 754 binary64, the
    kernel's primitive floats) and a 32-bit two's complement [int], as an
    x86-64 build runs it.  The arithmetic on coordinates is the rounded one;
    [int] arithmetic wraps around; the conversion of a [double] outside the
    range of [int] (and of an infinity or a NaN) gives [INT_MIN], which is
    what the conversion instruction of x86-64 returns (C++ leaves that
    conversion, like signed overflow, undefined). *)
Module Double.

Definition INT_MIN : Z := - 2 ^ 31.
Definition INT_MAX : Z := 2 ^ 31 - 1.

(** Reduction of an integer to the 32-bit two's complement range. *)
Definition wrap (z : Z) : Z := (z + 2 ^ 31) mod 2 ^ 32 - 2 ^ 31.

(** [a + b], [a - b] and [a * b] on [int]. *)
Definition int_add (a b : Z) : Z := wrap (a + b).
Definition int_sub (a b : Z) : Z := wrap (a - b).
Definition int_mul (a b : Z) : Z := wrap (a * b).

(** The integer [z] as a [double]; exact for [|z| <= 2^53]. *)
Definition of_Z (z : Z) : float :=
  if z <? 0 then PrimFloat.opp (PrimFloat.of_uint63 (Uint63.of_Z (- z)))
  else PrimFloat.of_uint63 (Uint63.of_Z z).

(** The exact value of a finite [double] as a rational. *)
Definition to_Q (v : float) : Q :=
  match Prim2SF v with
  | S754_finite s m e =>
      (inject_Z (if s then Z.neg m else Z.pos m) * Qpower 2 e)%Q
  | _ => 0%Q
  end.

(** [std::floor]: a finite value [(+/-) m * 2^e] with [e < 0] is below
    [2^53] in magnitude, so its floor is representable; every other value is
    an integer, an infinity or a NaN and is returned as it is.  (A zero
    result is [+0]; the code never observes the sign of a zero.) *)
Definition std_floor (v : float) : float :=
  match Prim2SF v with
  | S754_finite s m e =>
      if e <? 0 then of_Z ((if s then Z.neg m else Z.pos m) / 2 ^ (- e)) else v
  | _ => v
  end.

(** [std::ceil], likewise. *)
Definition std_ceil (v : float) : float :=
  match Prim2SF v with
  | S754_finite s m e =>
      if e <? 0 then of_Z (- ((if s then Z.pos m else Z.neg m) / 2 ^ (- e)))
      else v
  | _ => v
  end.

(** [static_cast<int>]: truncation towards zero when the result fits
    [int], and [INT_MIN] otherwise. *)
Definition static_cast_int (v : float) : Z :=
  match Prim2SF v with
  | S754_zero _ => 0
  | S754_finite s m e =>
      let z :=
        if e <? 0 then Z.quot (if s then Z.neg m else Z.pos m) (2 ^ (- e))
        else (if s then Z.neg m else Z.pos m) * 2 ^ e in
      if (INT_MIN <=? z) && (z <=? INT_MAX) then z else INT_MIN
  | _ => INT_MIN
  end.

(** [std::invalid_argument], thrown by the constructor's checks, and
    [std::length_error], thrown by [grid_.resize] when the [int] product,
    converted to [size_t], exceeds the maximal size of a vector. *)
Inductive error : Type :=
  | InvalidParameter (what : string)
  | LengthError.

Record GridIndex2D : Type := mkGrid {
  x_start_ : float; x_end_ : float; x_step_ : float;
  y_start_ : float; y_end_ : float; y_step_ : float;
  nx_ : Z; ny_ : Z;
  grid_ : list (list N)
}.

Definition with_grid (g : GridIndex2D) (b : list (list N)) : GridIndex2D :=
  mkGrid (x_start_ g) (x_end_ g) (x_step_ g)
         (y_start_ g) (y_end_ g) (y_step_ g) (nx_ g) (ny_ g) b.

(** The constructor.  [grid_.resize(nx_ * ny_)] converts the [int] product
    to [size_t]: a negative product becomes a size above [2^63] and the
    vector throws; any other [int] is an admissible size. *)
Definition construct (x_start x_end x_step y_start y_end y_step : float)
    : error + GridIndex2D :=
  if PrimFloat.leb x_step 0 || PrimFloat.leb y_step 0 then
    inl (InvalidParameter "Step values must be positive")
  else if PrimFloat.leb x_end x_start || PrimFloat.leb y_end y_start then
    inl (InvalidParameter "Start must be less than end")
  else
    let nx :=
      static_cast_int
        (std_ceil (PrimFloat.div (PrimFloat.sub x_end x_start) x_step)) in
    let ny :=
      static_cast_int
        (std_ceil (PrimFloat.div (PrimFloat.sub y_end y_start) y_step)) in
    let size := int_mul nx ny in
    if size <? 0 then inl LengthError
    else inr (mkGrid x_start x_end x_step y_start y_end y_step nx ny
                (replicate (Z.to_nat size) [])).

Definition get_cell_x (g : GridIndex2D) (x : float) : Z :=
  let i :=
    static_cast_int
      (std_floor (PrimFloat.div (PrimFloat.sub x (x_start_ g)) (x_step_ g))) in
  std_max 0 (std_min i (int_sub (nx_ g) 1)).

Definition get_cell_y (g : GridIndex2D) (y : float) : Z :=
  let j :=
    static_cast_int
      (std_floor (PrimFloat.div (PrimFloat.sub y (y_start_ g)) (y_step_ g))) in
  std_max 0 (std_min j (int_sub (ny_ g) 1)).

Definition get_cell_id (g : GridIndex2D) (i j : Z) : Z :=
  int_add (int_mul j (nx_ g)) i.

Definition insert (g : GridIndex2D) (x y : float) (index : N)
    : option GridIndex2D :=
  let i := get_cell_x g x in
  let j := get_cell_y g y in
  let cell_id := get_cell_id g i j in
  cell ← at_index (grid_ g) cell_id;
  Some (with_grid g (<[Z.to_nat cell_id := cell ++ [index]]> (grid_ g))).

Definition get_cell_range (g : GridIndex2D) (x1 x2 y1 y2 : float)
    (include_min include_max : bool) : cell_range :=
  let '(x1, x2) := if PrimFloat.ltb x2 x1 then (x2, x1) else (x1, x2) in
  let '(y1, y2) := if PrimFloat.ltb y2 y1 then (y2, y1) else (y1, y2) in
  let i_min :=
    static_cast_int
      (std_floor (PrimFloat.div (PrimFloat.sub x1 (x_start_ g)) (x_step_ g))) in
  let i_max :=
    static_cast_int
      (std_floor (PrimFloat.div (PrimFloat.sub x2 (x_start_ g)) (x_step_ g))) in
  let j_min :=
    static_cast_int
      (std_floor (PrimFloat.div (PrimFloat.sub y1 (y_start_ g)) (y_step_ g))) in
  let j_max :=
    static_cast_int
      (std_floor (PrimFloat.div (PrimFloat.sub y2 (y_start_ g)) (y_step_ g))) in
  let '(i_min, j_min) :=
    if negb include_min then
      let x1_normalized :=
        PrimFloat.div (PrimFloat.sub x1 (x_start_ g)) (x_step_ g) in
      let i_min :=
        if PrimFloat.eqb x1_normalized (std_floor x1_normalized)
        then int_add i_min 1 else i_min in
      let y1_normalized :=
        PrimFloat.div (PrimFloat.sub y1 (y_start_ g)) (y_step_ g) in
      let j_min :=
        if PrimFloat.eqb y1_normalized (std_floor y1_normalized)
        then int_add j_min 1 else j_min in
      (i_min, j_min)
    else (i_min, j_min) in
  let '(i_max, j_max) :=
    if negb include_max then
      let x2_normalized :=
        PrimFloat.div (PrimFloat.sub x2 (x_start_ g)) (x_step_ g) in
      let i_max :=
        if PrimFloat.eqb x2_normalized (std_floor x2_normalized)
        then int_sub i_max 1 else i_max in
      let y2_normalized :=
        PrimFloat.div (PrimFloat.sub y2 (y_start_ g)) (y_step_ g) in
      let j_max :=
        if PrimFloat.eqb y2_normalized (std_floor y2_normalized)
        then int_sub j_max 1 else j_max in
      (i_max, j_max)
    else (i_max, j_max) in
  mkRange (std_max 0 (std_min i_min (int_sub (nx_ g) 1)))
          (std_max 0 (std_min i_max (int_sub (nx_ g) 1)))
          (std_max 0 (std_min j_min (int_sub (ny_ g) 1)))
          (std_max 0 (std_min j_max (int_sub (ny_ g) 1))).

Definition query_box (g : GridIndex2D) (x1 x2 y1 y2 : float)
    (include_min include_max : bool) : option (list N) :=
  let result := [] in
  let r := get_cell_range g x1 x2 y1 y2 include_min include_max in
  for_range (j_min r) (j_max r) (λ j result,
    for_range (i_min r) (i_max r) (λ i result,
      let cell_id := get_cell_id g i j in
      cell ← at_index (grid_ g) cell_id;
      Some (result ++ cell)) result) result.

Definition query_box_no_alloc (g : GridIndex2D) (x1 x2 y1 y2 : float)
    (result : list N) (append_results include_min include_max : bool)
    : option (list N) :=
  let result := if negb append_results then [] else result in
  let r := get_cell_range g x1 x2 y1 y2 include_min include_max in
  for_range (j_min r) (j_max r) (λ j result,
    for_range (i_min r) (i_max r) (λ i result,
      let cell_id := get_cell_id g i j in
      cell ← at_index (grid_ g) cell_id;
      Some (result ++ cell)) result) result.

Definition query_box_callback {S : Type} (g : GridIndex2D)
    (x1 x2 y1 y2 : float) (callback : N → S → S)
    (include_min include_max : bool) (s : S) : option S :=
  let r := get_cell_range g x1 x2 y1 y2 include_min include_max in
  for_range (j_min r) (j_max r) (λ j s,
    for_range (i_min r) (i_max r) (λ i s,
      let cell_id := get_cell_id g i j in
      cell ← at_index (grid_ g) cell_id;
      Some (foldl (λ s idx, callback idx s) s cell)) s) s.

Definition clear (g : GridIndex2D) : GridIndex2D :=
  with_grid g ((λ _, []) <$> grid_ g).

Definition get_num_cells (g : GridIndex2D) : nat := length (grid_ g).

Definition get_num_points (g : GridIndex2D) : nat :=
  foldl (λ count cell, (count + length cell)%nat) 0%nat (grid_ g).

Definition get_dimensions (g : GridIndex2D) : Z * Z := (nx_ g, ny_ g).

Definition get_bounds (g : GridIndex2D) : float * float * float * float :=
  (x_start_ g, x_end_ g, y_start_ g, y_end_ g).

(** A sequence of calls [g.insert(x, y, index)]. *)
Fixpoint insert_all (g : GridIndex2D) (pts : list (float * float * N))
    : option GridIndex2D :=
  match pts with
  | [] => Some g
  | (x, y, index) :: pts' => g' ← insert g x y index; insert_all g' pts'
  end.

(** A construction followed by a sequence of insertions. *)
Definition build (x_start x_end x_step y_start y_end y_step : float)
    (pts : list (float * float * N)) : option GridIndex2D :=
  match construct x_start x_end x_step y_start y_end y_step with
  | inl _ => None
  | inr g => insert_all g pts
  end.

(** ** Notions used in the statements about [GridIndex2D<double>] *)

(** The grids on which the index arithmetic of the code stays within [int]
    and within the bucket array: at least one cell on each axis, a number of
    cells that fits [int], and one bucket per cell. *)
Record well_formed (g : GridIndex2D) : Prop := mkWf {
  wf_nx : 1 ≤ nx_ g;
  wf_ny : 1 ≤ ny_ g;
  wf_size : nx_ g * ny_ g ≤ INT_MAX;
  wf_cells : Z.of_nat (length (grid_ g)) = nx_ g * ny_ g
}.

(** The flat bucket indices read by a traversal of the range [r], in the
    order of the two nested loops. *)
Definition visited_cells (g : GridIndex2D) (r : cell_range) : list Z :=
  j ← index_range (j_min r) (j_max r);
  i ← index_range (i_min r) (i_max r);
  [get_cell_id g i j].

(** The buckets read by a traversal, [None] if one read is out of range. *)
Definition selected_buckets (g : GridIndex2D) (r : cell_range)
    : option (list (list N)) :=
  mapM (at_index (grid_ g)) (visited_cells g r).

(** [(v - start) / step] as the code computes it. *)
Definition normalized (start step v : float) : float :=
  PrimFloat.div (PrimFloat.sub v start) step.

(** The raw cell index of a coordinate, before any adjustment or clamp. *)
Definition raw_index (start step v : float) : Z :=
  static_cast_int (std_floor (normalized start step v)).

(** The test of the code for "[v] lies exactly on a cell boundary". *)
Definition on_boundary (start step v : float) : bool :=
  PrimFloat.eqb (normalized start step v) (std_floor (normalized start step v)).

(** The lower and the upper query boundary after the swap of the code. *)
Definition lower (v1 v2 : float) : float :=
  if PrimFloat.ltb v2 v1 then v2 else v1.
Definition upper (v1 v2 : float) : float :=
  if PrimFloat.ltb v2 v1 then v1 else v2.

(** The first and the last cell index of an axis with [n] cells, as
    [get_cell_range] resolves them from a boundary and its flag. *)
Definition axis_min (start step : float) (n : Z) (v : float)
    (include_min : bool) : Z :=
  std_max 0
    (std_min
       (if negb include_min && on_boundary start step v
        then int_add (raw_index start step v) 1 else raw_index start step v)
       (int_sub n 1)).

Definition axis_max (start step : float) (n : Z) (v : float)
    (include_max : bool) : Z :=
  std_max 0
    (std_min
       (if negb include_max && on_boundary start step v
        then int_sub (raw_index start step v) 1 else raw_index start step v)
       (int_sub n 1)).

(** Both query boundaries [v1] and [v2] of an axis pass the boundary test of
    the code, with the same raw cell index [k]. *)
Definition same_boundary (start step v1 v2 : float) (k : Z) : Prop :=
  on_boundary start step v1 = true ∧ on_boundary start step v2 = true
  ∧ raw_index start step v1 = k ∧ raw_index start step v2 = k.

(** The four checks of the constructor, on the coordinate type. *)
Definition invalid_parameters
    (x_start x_end x_step y_start y_end y_step : float) : Prop :=
  PrimFloat.leb x_step 0 = true ∨ PrimFloat.leb y_step 0 = true
  ∨ PrimFloat.leb x_end x_start = true ∨ PrimFloat.leb y_end y_start = true.

(** The dimensions that the constructor computes. *)
Definition cells_along (start end_ step : float) : Z :=
  static_cast_int (std_ceil (PrimFloat.div (PrimFloat.sub end_ start) step)).

(** The identifier [id] is held by the bucket of cell [(i, j)]. *)
Definition stored_at (g : GridIndex2D) (i j : Z) (id : N) : Prop :=
  ∃ cell, at_index (grid_ g) (get_cell_id g i j) = Some cell ∧ id ∈ cell.

(** The position in [grid_] of the bucket that [insert(x, y, _)] extends. *)
Definition cell_of (g : GridIndex2D) (x y : float) : nat :=
  Z.to_nat (get_cell_id g (get_cell_x g x) (get_cell_y g y)).

(** ** Concrete grids *)

(** [GridIndex2D<double> grid(0, 10, 1, 0, 10, 1)]. *)
Definition grid10 : GridIndex2D :=
  mkGrid 0 10 1 0 10 1 10 10 (replicate 100 []).

(** That grid with identifier 7 at [(9.5, 9.5)], in the last bucket
    [9 * 10 + 9]. *)
Definition last_cell_grid : GridIndex2D :=
  with_grid grid10 (<[99%nat := [7%N]]> (grid_ grid10)).

(** The grid of [test_edge_handling_default_params]: identifier 0 at
    [(5, 5)] and identifier 1 at [(6, 6)]. *)
Definition edge_test_grid : GridIndex2D :=
  with_grid grid10 (<[66%nat := [1%N]]> (<[55%nat := [0%N]]> (grid_ grid10))).

(** [GridIndex2D<double> grid(0, 1e-200, 1e200, 0, 10, 1)]: the quotient
    [1e-200 / 1e200] underflows to 0, so [nx_] is 0 and there is no bucket. *)
Definition no_cell_grid : GridIndex2D :=
  mkGrid 0 1e-200 1e200 0 10 1 0 10 [].

End Double.

(** * Properties *)

(** ** Primitive operations *)

Lemma std_max_spec a b : std_max a b = Z.max a b.
Proof. unfold std_max. destruct (Z.ltb_spec a b); lia. Qed.

Lemma std_min_spec a b : std_min a b = Z.min a b.
Proof. unfold std_min. destruct (Z.ltb_spec b a); lia. Qed.

Lemma std_clamp_spec n k : std_max 0 (std_min k (n - 1)) = clamp_index n k.
Proof. by rewrite std_max_spec, std_min_spec. Qed.

Lemma static_cast_int_inject z : static_cast_int (inject_Z z) = z.
Proof. unfold static_cast_int. simpl. apply Z.quot_1_r. Qed.

Lemma static_cast_int_floor v : static_cast_int (std_floor v) = Qfloor v.
Proof. apply static_cast_int_inject. Qed.

Lemma static_cast_int_ceil v : static_cast_int (std_ceil v) = Qceiling v.
Proof. apply static_cast_int_inject. Qed.

Lemma Qgt_bool_iff a b : Qgt_bool a b = true ↔ (b < a)%Q.
Proof.
  unfold Qgt_bool. rewrite Qgt_alt.
  destruct (a ?= b)%Q; split; congruence.
Qed.

Lemma Qgt_bool_false a b : Qgt_bool a b = false ↔ (a <= b)%Q.
Proof.
  rewrite <- not_true_iff_false, Qgt_bool_iff. split.
  - apply Qnot_lt_le.
  - apply Qle_not_lt.
Qed.

Lemma Qge_bool_iff a b : Qge_bool a b = true ↔ (b <= a)%Q.
Proof. apply Qle_bool_iff. Qed.

(** ** Loops *)

Lemma for_iter_fold {S : Type} n k (body : Z → S → option S) s :
  for_iter n k body s = fold_opt body (seqZ k (Z.of_nat n)) s.
Proof.
  revert k s. induction n as [|n IH]; intros k s; [done|].
  rewrite seqZ_cons by lia. simpl.
  destruct (body k s) as [s'|]; simpl; [|done].
  rewrite IH. do 2 f_equal; lia.
Qed.

Lemma for_range_fold {S : Type} lo hi (body : Z → S → option S) s :
  for_range lo hi body s = fold_opt body (index_range lo hi) s.
Proof.
  unfold for_range, index_range. rewrite for_iter_fold.
  destruct (Z.le_gt_cases (hi + 1 - lo) 0).
  - replace (Z.to_nat (hi + 1 - lo)) with 0%nat by lia.
    by rewrite (seqZ_nil lo (hi + 1 - lo)) by lia.
  - by rewrite Z2Nat.id by lia.
Qed.

Lemma fold_opt_app {A S : Type} (f : A → S → option S) l1 l2 s :
  fold_opt f (l1 ++ l2) s = s' ← fold_opt f l1 s; fold_opt f l2 s'.
Proof.
  revert s. induction l1 as [|a l1 IH]; intros s; simpl; [done|].
  destruct (f a s); simpl; [apply IH | done].
Qed.

Lemma fold_opt_ext {A S : Type} (f f' : A → S → option S) l s :
  (∀ a s, f a s = f' a s) → fold_opt f l s = fold_opt f' l s.
Proof.
  intros Hf. revert s. induction l as [|a l IH]; intros s; simpl; [done|].
  rewrite Hf. destruct (f' a s); simpl; [apply IH | done].
Qed.

(** Two nested loops are one loop over the pairs in row-major order. *)
Lemma fold_opt_nested {A B C S : Type} (f : C → S → option S)
    (c : A → B → C) (la : list A) (lb : list B) s :
  fold_opt (λ a s, fold_opt (λ b s, f (c a b) s) lb s) la s
  = fold_opt f (a ← la; b ← lb; [c a b]) s.
Proof.
  revert s. induction la as [|a la IH]; intros s; simpl; [done|].
  rewrite fold_opt_app.
  assert (fold_opt (λ b s, f (c a b) s) lb s
          = fold_opt f (b ← lb; [c a b]) s) as ->.
  { clear. revert s. induction lb as [|b lb IH]; intros s; simpl; [done|].
    destruct (f (c a b) s); simpl; [apply IH | done]. }
  destruct (fold_opt f (b ← lb; [c a b]) s); simpl; [apply IH | done].
Qed.

(** A loop that reads a bucket and hands it to [visit] reads the buckets
    first and folds [visit] over them afterwards. *)
Lemma fold_opt_read {S : Type} (b : list (list N)) (visit : list N → S → S)
    (ids : list Z) s :
  fold_opt (λ id s, cell ← at_index b id; Some (visit cell s)) ids s
  = (λ cells, foldl (λ s cell, visit cell s) s cells) <$> mapM (at_index b) ids.
Proof.
  revert s. induction ids as [|id ids IH]; intros s; simpl; [done|].
  destruct (at_index b id) as [cell|]; simpl; [|done].
  rewrite IH. by destruct (mapM (at_index b) ids).
Qed.

(** The nested loops of the query variants, for any use of the bucket. *)
Lemma traversal_selected {S : Type} (g : GridIndex2D) (r : cell_range)
    (visit : list N → S → S) s :
  for_range (j_min r) (j_max r) (λ j s,
    for_range (i_min r) (i_max r) (λ i s,
      let cell_id := get_cell_id g i j in
      cell ← at_index (grid_ g) cell_id;
      Some (visit cell s)) s) s
  = (λ cells, foldl (λ s cell, visit cell s) s cells) <$> selected_buckets g r.
Proof.
  rewrite for_range_fold.
  erewrite fold_opt_ext by (intros; apply for_range_fold).
  unfold selected_buckets, visited_cells.
  rewrite <- fold_opt_read.
  apply (fold_opt_nested
    (λ id s, cell ← at_index (grid_ g) id; Some (visit cell s))
    (λ j i, get_cell_id g i j)).
Qed.

Lemma foldl_app_concat {A : Type} (acc : list A) (cells : list (list A)) :
  foldl (λ result cell, result ++ cell) acc cells = acc ++ concat cells.
Proof.
  revert acc. induction cells as [|c cells IH]; intros acc; simpl.
  - by rewrite app_nil_r.
  - by rewrite IH, app_assoc.
Qed.

Lemma foldl_foldl_concat {A S : Type} (f : S → A → S) s (cells : list (list A)) :
  foldl (λ s cell, foldl f s cell) s cells = foldl f s (concat cells).
Proof.
  revert s. induction cells as [|c cells IH]; intros s; simpl; [done|].
  by rewrite IH, foldl_app.
Qed.

(** ** The query variants in terms of the selected buckets *)

Lemma query_box_selected g x1 x2 y1 y2 include_min include_max :
  query_box g x1 x2 y1 y2 include_min include_max
  = (λ cells, concat cells) <$> selected_buckets g
      (get_cell_range g x1 x2 y1 y2 include_min include_max).
Proof.
  unfold query_box.
  rewrite (traversal_selected g _ (λ cell result, result ++ cell)).
  destruct (selected_buckets _ _) as [cells|]; simpl; [|done].
  by rewrite foldl_app_concat.
Qed.

Lemma query_box_no_alloc_selected g x1 x2 y1 y2 result append_results
    include_min include_max :
  query_box_no_alloc g x1 x2 y1 y2 result append_results include_min include_max
  = (λ cells, (if append_results then result else []) ++ concat cells)
    <$> selected_buckets g
      (get_cell_range g x1 x2 y1 y2 include_min include_max).
Proof.
  unfold query_box_no_alloc.
  rewrite (traversal_selected g _ (λ cell result, result ++ cell)).
  destruct (selected_buckets _ _) as [cells|]; simpl; [|done].
  rewrite foldl_app_concat. by destruct append_results.
Qed.

Lemma query_box_callback_selected {S : Type} g x1 x2 y1 y2
    (callback : N → S → S) include_min include_max s :
  query_box_callback g x1 x2 y1 y2 callback include_min include_max s
  = (λ cells, foldl (λ s idx, callback idx s) s (concat cells))
    <$> selected_buckets g
      (get_cell_range g x1 x2 y1 y2 include_min include_max).
Proof.
  unfold query_box_callback.
  rewrite (traversal_selected g _
             (λ cell s, foldl (λ s idx, callback idx s) s cell)).
  destruct (selected_buckets _ _) as [cells|]; simpl; [|done].
  by rewrite foldl_foldl_concat.
Qed.

Lemma foldl_snoc_collect {A : Type} (acc l : list A) :
  foldl (λ acc idx, acc ++ [idx]) acc l = acc ++ l.
Proof.
  revert acc. induction l as [|a l IH]; intros acc; simpl.
  - by rewrite app_nil_r.
  - by rewrite IH, <- app_assoc.
Qed.

(** C3: for every grid state, query rectangle and pair of edge flags,
    [query_box_no_alloc] with [append_results = false] returns the same
    sequence as [query_box] (whatever the destination held before), and
    [query_box_callback] calls the callback on exactly the identifiers of
    that sequence, in the same order: its effect is the left fold of the
    callback over the result of [query_box]; in particular the callback that
    collects its arguments collects the result of [query_box]. *)
Theorem query_variants_agree (g : GridIndex2D) (x1 x2 y1 y2 : Q)
    (include_min include_max : bool) :
  (∀ result,
     query_box_no_alloc g x1 x2 y1 y2 result false include_min include_max
     = query_box g x1 x2 y1 y2 include_min include_max)
  ∧ (∀ (S : Type) (callback : N → S → S) (s : S),
     query_box_callback g x1 x2 y1 y2 callback include_min include_max s
     = (λ ids, foldl (λ s idx, callback idx s) s ids)
       <$> query_box g x1 x2 y1 y2 include_min include_max)
  ∧ query_box_callback g x1 x2 y1 y2 (λ idx collected, collected ++ [idx])
      include_min include_max []
    = query_box g x1 x2 y1 y2 include_min include_max.
Proof.
  rewrite query_box_selected. split; [|split].
  - intros result. rewrite query_box_no_alloc_selected.
    by destruct (selected_buckets _ _).
  - intros S callback s. rewrite query_box_callback_selected.
    by destruct (selected_buckets _ _).
  - rewrite query_box_callback_selected.
    destruct (selected_buckets _ _) as [cells|]; simpl; [|done].
    by rewrite foldl_snoc_collect.
Qed.

(** ** The invariant of reachable grids *)

Lemma Qle_bool_false a b : Qle_bool a b = false ↔ (b < a)%Q.
Proof.
  rewrite <- not_true_iff_false, Qle_bool_iff. split.
  - apply Qnot_le_lt.
  - apply Qlt_not_le.
Qed.

Lemma Qceiling_pos q : (0 < q)%Q → 1 ≤ Qceiling q.
Proof.
  intros Hq.
  assert (0 < inject_Z (Qceiling q))%Q as H
    by (eapply Qlt_le_trans; [exact Hq | apply Qle_ceiling]).
  change 0%Q with (inject_Z 0) in H. rewrite <- Zlt_Qlt in H. lia.
Qed.

Lemma Qdiv_pos a b : (0 < a)%Q → (0 < b)%Q → (0 < a / b)%Q.
Proof.
  intros Ha Hb. apply Qlt_shift_div_l; [done|]. by rewrite Qmult_0_l.
Qed.

Lemma Qspan_pos a b : (a < b)%Q → (0 < b - a)%Q.
Proof. intros H. apply Qlt_minus_iff in H. exact H. Qed.

Lemma construct_cases x_start x_end x_step y_start y_end y_step :
  match construct x_start x_end x_step y_start y_end y_step with
  | inl _ => invalid_parameters x_start x_end x_step y_start y_end y_step
  | inr g =>
      ¬ invalid_parameters x_start x_end x_step y_start y_end y_step
      ∧ g = mkGrid x_start x_end x_step y_start y_end y_step
              (Qceiling ((x_end - x_start) / x_step))
              (Qceiling ((y_end - y_start) / y_step))
              (replicate
                 (Z.to_nat (Qceiling ((x_end - x_start) / x_step)
                            * Qceiling ((y_end - y_start) / y_step))) [])
  end.
Proof.
  unfold construct, invalid_parameters.
  destruct (Qle_bool x_step 0) eqn:Hxs; simpl.
  { left. by apply Qle_bool_iff. }
  destruct (Qle_bool y_step 0) eqn:Hys; simpl.
  { right; left. by apply Qle_bool_iff. }
  destruct (Qge_bool x_start x_end) eqn:Hx; simpl.
  { right; right; left. by apply Qge_bool_iff. }
  destruct (Qge_bool y_start y_end) eqn:Hy; simpl.
  { right; right; right. by apply Qge_bool_iff. }
  apply Qle_bool_false in Hxs, Hys, Hx, Hy.
  rewrite !static_cast_int_ceil. split; [|done].
  intros [H|[H|[H|H]]]; revert H; by apply Qlt_not_le.
Qed.

Lemma construct_inv x_start x_end x_step y_start y_end y_step g :
  construct x_start x_end x_step y_start y_end y_step = inr g → grid_inv g.
Proof.
  intros Hc. pose proof (construct_cases x_start x_end x_step y_start y_end y_step) as H.
  rewrite Hc in H. destruct H as [Hv ->]. unfold invalid_parameters in Hv.
  assert (0 < x_step)%Q by (apply Qnot_le_lt; tauto).
  assert (0 < y_step)%Q by (apply Qnot_le_lt; tauto).
  assert (x_start < x_end)%Q by (apply Qnot_le_lt; tauto).
  assert (y_start < y_end)%Q by (apply Qnot_le_lt; tauto).
  split; simpl; try done.
  rewrite length_replicate.
  pose proof (Qceiling_pos _ (Qdiv_pos _ _ (Qspan_pos _ _ H1) H)).
  pose proof (Qceiling_pos _ (Qdiv_pos _ _ (Qspan_pos _ _ H2) H0)).
  nia.
Qed.

Lemma insert_inv g x y index g' :
  insert g x y index = Some g' → grid_inv g → grid_inv g'.
Proof.
  unfold insert. intros Hi [? ? ? ? ? ? ?].
  destruct (at_index _ _) as [cell|]; simplify_eq/=.
  split; simpl; try done. by rewrite length_insert.
Qed.

Lemma clear_inv g : grid_inv g → grid_inv (clear g).
Proof.
  intros [? ? ? ? ? ? ?]. split; simpl; try done. by rewrite length_fmap.
Qed.

Lemma reachable_inv g : reachable g → grid_inv g.
Proof.
  induction 1; eauto using construct_inv, insert_inv, clear_inv.
Qed.

Lemma inv_dims g : grid_inv g → 1 ≤ nx_ g ∧ 1 ≤ ny_ g.
Proof.
  intros [? ? ? ? -> -> _].
  split; apply Qceiling_pos, Qdiv_pos; auto using Qspan_pos.
Qed.

(** ** Cell indices and bucket accesses *)

Lemma clamp_index_bounds n k : 1 ≤ n → 0 ≤ clamp_index n k ≤ n - 1.
Proof. unfold clamp_index. lia. Qed.

Lemma get_cell_x_spec g x :
  get_cell_x g x = clamp_index (nx_ g) (Qfloor ((x - x_start_ g) / x_step_ g)).
Proof. unfold get_cell_x. by rewrite static_cast_int_floor, std_clamp_spec. Qed.

Lemma get_cell_y_spec g y :
  get_cell_y g y = clamp_index (ny_ g) (Qfloor ((y - y_start_ g) / y_step_ g)).
Proof. unfold get_cell_y. by rewrite static_cast_int_floor, std_clamp_spec. Qed.

Lemma cell_id_bounds nx ny i j :
  0 ≤ i ≤ nx - 1 → 0 ≤ j ≤ ny - 1 → 0 ≤ j * nx + i < nx * ny.
Proof. nia. Qed.

Lemma at_index_lookup {A : Type} (v : list A) k :
  0 ≤ k → at_index v k = v !! Z.to_nat k.
Proof. unfold at_index. intros Hk. destruct (Z.ltb_spec k 0); [lia | done]. Qed.

Lemma at_index_is_Some {A : Type} (v : list A) k :
  is_Some (at_index v k) ↔ 0 ≤ k < Z.of_nat (length v).
Proof.
  unfold at_index. destruct (Z.ltb_spec k 0).
  - split; [intros [? ?]; done | lia].
  - rewrite lookup_lt_is_Some. lia.
Qed.

Lemma get_cell_id_in_grid g i j :
  grid_inv g → 0 ≤ i ≤ nx_ g - 1 → 0 ≤ j ≤ ny_ g - 1 →
  0 ≤ get_cell_id g i j < nx_ g * ny_ g
  ∧ is_Some (at_index (grid_ g) (get_cell_id g i j)).
Proof.
  intros Hinv Hi Hj. pose proof (cell_id_bounds _ _ _ _ Hi Hj) as Hid.
  split; [done|]. apply at_index_is_Some. by rewrite (inv_cells g Hinv).
Qed.

(** ** The resolved cell range, axis by axis *)

Lemma get_cell_range_axes g x1 x2 y1 y2 include_min include_max :
  get_cell_range g x1 x2 y1 y2 include_min include_max
  = mkRange
      (axis_min (x_start_ g) (x_step_ g) (nx_ g) (lower x1 x2) include_min)
      (axis_max (x_start_ g) (x_step_ g) (nx_ g) (upper x1 x2) include_max)
      (axis_min (y_start_ g) (y_step_ g) (ny_ g) (lower y1 y2) include_min)
      (axis_max (y_start_ g) (y_step_ g) (ny_ g) (upper y1 y2) include_max).
Proof.
  unfold get_cell_range, axis_min, axis_max, lower, upper, on_boundary,
    raw_index, std_floor.
  destruct (Qgt_bool x1 x2), (Qgt_bool y1 y2), include_min, include_max;
    simpl; rewrite !static_cast_int_inject, <- !std_clamp_spec; reflexivity.
Qed.






(** ** Totality of the operations on reachable grids *)





(** ** The grid of the tests *)

Lemma grid10_constructed : construct 0 10 1 0 10 1 = inr grid10.
Proof. vm_compute. reflexivity. Qed.

Lemma grid10_reachable : reachable grid10.
Proof. eapply reachable_construct, grid10_constructed. Qed.

(** ** Construction *)





(** ** Bucket accesses of the queries *)



(** ** Insertion *)



(** What one call of [insert] does to the bucket array. *)
Lemma insert_spec g x y index :
  grid_inv g →
  let i := clamp_index (nx_ g) (Qfloor ((x - x_start_ g) / x_step_ g)) in
  let j := clamp_index (ny_ g) (Qfloor ((y - y_start_ g) / y_step_ g)) in
  ∃ cell,
    grid_ g !! Z.to_nat (j * nx_ g + i) = Some cell
    ∧ insert g x y index
      = Some (with_grid g
                (<[Z.to_nat (j * nx_ g + i) := cell ++ [index]]> (grid_ g))).
Proof.
  intros Hinv i j. destruct (inv_dims g Hinv).
  destruct (get_cell_id_in_grid g i j Hinv) as [Hid [cell Hcell]];
    [by apply clamp_index_bounds..|].
  exists cell. unfold insert. rewrite get_cell_x_spec, get_cell_y_spec.
  fold i j. rewrite Hcell. simpl.
  rewrite at_index_lookup in Hcell by apply Hid. done.
Qed.






(** ** Clearing *)






(** ** Swapped query corners *)

Lemma Qeq_bool_compat a a' b b' :
  (a == a')%Q → (b == b')%Q → Qeq_bool a b = Qeq_bool a' b'.
Proof.
  intros Ha Hb. apply eq_true_iff_eq. rewrite !Qeq_bool_iff, Ha, Hb. done.
Qed.

Lemma normalized_compat start step v v' :
  (v == v')%Q → ((v - start) / step == (v' - start) / step)%Q.
Proof. intros H. by rewrite H. Qed.

Lemma raw_index_compat start step v v' :
  (v == v')%Q → raw_index start step v = raw_index start step v'.
Proof.
  intros H. unfold raw_index. apply Qfloor_comp. by apply normalized_compat.
Qed.

Lemma on_boundary_compat start step v v' :
  (v == v')%Q → on_boundary start step v = on_boundary start step v'.
Proof.
  intros H. unfold on_boundary. apply Qeq_bool_compat.
  - by apply normalized_compat.
  - rewrite (Qfloor_comp _ _ (normalized_compat start step v v' H)). reflexivity.
Qed.

Lemma axis_min_compat start step n v v' include_min :
  (v == v')%Q →
  axis_min start step n v include_min = axis_min start step n v' include_min.
Proof.
  intros H. unfold axis_min.
  by rewrite (raw_index_compat _ _ _ _ H), (on_boundary_compat _ _ _ _ H).
Qed.

Lemma axis_max_compat start step n v v' include_max :
  (v == v')%Q →
  axis_max start step n v include_max = axis_max start step n v' include_max.
Proof.
  intros H. unfold axis_max.
  by rewrite (raw_index_compat _ _ _ _ H), (on_boundary_compat _ _ _ _ H).
Qed.

Lemma lower_swap v1 v2 : (lower v2 v1 == lower v1 v2)%Q.
Proof.
  unfold lower.
  destruct (Qgt_bool v2 v1) eqn:H21, (Qgt_bool v1 v2) eqn:H12; try reflexivity.
  - apply Qgt_bool_iff in H21, H12.
    exfalso. eapply Qlt_irrefl, Qlt_trans; eauto.
  - apply Qgt_bool_false in H21, H12. by apply Qle_antisym.
Qed.

Lemma upper_swap v1 v2 : (upper v2 v1 == upper v1 v2)%Q.
Proof.
  unfold upper.
  destruct (Qgt_bool v2 v1) eqn:H21, (Qgt_bool v1 v2) eqn:H12; try reflexivity.
  - apply Qgt_bool_iff in H21, H12.
    exfalso. eapply Qlt_irrefl, Qlt_trans; eauto.
  - apply Qgt_bool_false in H21, H12. by apply Qle_antisym.
Qed.

Lemma get_cell_range_swap_x g x1 x2 y1 y2 include_min include_max :
  get_cell_range g x2 x1 y1 y2 include_min include_max
  = get_cell_range g x1 x2 y1 y2 include_min include_max.
Proof.
  rewrite !get_cell_range_axes. f_equal.
  - apply axis_min_compat, lower_swap.
  - apply axis_max_compat, upper_swap.
Qed.

Lemma get_cell_range_swap_y g x1 x2 y1 y2 include_min include_max :
  get_cell_range g x1 x2 y2 y1 include_min include_max
  = get_cell_range g x1 x2 y1 y2 include_min include_max.
Proof.
  rewrite !get_cell_range_axes. f_equal.
  - apply axis_min_compat, lower_swap.
  - apply axis_max_compat, upper_swap.
Qed.

(** C8: for every grid state, flags and query rectangle, each of the three
    query variants returns the same result when both corner pairs are
    swapped, when only the x pair is swapped and when only the y pair is
    swapped. *)
Theorem query_swapped_corners (g : GridIndex2D) (x1 x2 y1 y2 : Q)
    (include_min include_max : bool) :
  (query_box g x2 x1 y2 y1 include_min include_max
   = query_box g x1 x2 y1 y2 include_min include_max
   ∧ query_box g x2 x1 y1 y2 include_min include_max
     = query_box g x1 x2 y1 y2 include_min include_max
   ∧ query_box g x1 x2 y2 y1 include_min include_max
     = query_box g x1 x2 y1 y2 include_min include_max)
  ∧ (∀ result append_results,
       query_box_no_alloc g x2 x1 y2 y1 result append_results
         include_min include_max
       = query_box_no_alloc g x1 x2 y1 y2 result append_results
           include_min include_max
       ∧ query_box_no_alloc g x2 x1 y1 y2 result append_results
           include_min include_max
         = query_box_no_alloc g x1 x2 y1 y2 result append_results
             include_min include_max
       ∧ query_box_no_alloc g x1 x2 y2 y1 result append_results
           include_min include_max
         = query_box_no_alloc g x1 x2 y1 y2 result append_results
             include_min include_max)
  ∧ (∀ (S : Type) (callback : N → S → S) s,
       query_box_callback g x2 x1 y2 y1 callback include_min include_max s
       = query_box_callback g x1 x2 y1 y2 callback include_min include_max s
       ∧ query_box_callback g x2 x1 y1 y2 callback include_min include_max s
         = query_box_callback g x1 x2 y1 y2 callback include_min include_max s
       ∧ query_box_callback g x1 x2 y2 y1 callback include_min include_max s
         = query_box_callback g x1 x2 y1 y2 callback include_min include_max s).
Proof.
  unfold query_box, query_box_no_alloc, query_box_callback.
  split; [|split]; intros;
    by rewrite (get_cell_range_swap_y g x2 x1 y1 y2),
               (get_cell_range_swap_y g x1 x2 y1 y2),
               (get_cell_range_swap_x g x1 x2 y1 y2).
Qed.

(** ** The edge-handling tests *)

Lemma insert_all_reachable g pts g' :
  reachable g → insert_all g pts = Some g' → reachable g'.
Proof.
  revert g. induction pts as [|[[x y] index] pts IH]; intros g Hg H; simpl in H.
  - by simplify_eq.
  - destruct (insert g x y index) as [g1|] eqn:Hg1; simplify_eq/=.
    eapply IH; [|done]. by eapply reachable_insert.
Qed.

Lemma build_reachable x_start x_end x_step y_start y_end y_step pts g :
  build x_start x_end x_step y_start y_end y_step pts = Some g → reachable g.
Proof.
  unfold build. intros H.
  destruct (construct _ _ _ _ _ _) as [e|g0] eqn:Hc; [done|].
  eapply insert_all_reachable; [|done]. by eapply reachable_construct.
Qed.


(** C2: on the grid with bounds [[0, 10)] and step 1 on both axes, after
    [insert(5, 5, 0)] and [insert(6, 6, 1)], [query_box(5, 6, 5, 6, ...)]
    returns [0; 1] with both flags set, nothing with both flags cleared, [0]
    with only [include_min] set and [1] with only [include_max] set. *)
Theorem edge_flags_on_test_grid :
  (g0 ← (match construct 0 10 1 0 10 1 with
         | inl _ => None | inr g => Some g end);
   g1 ← insert g0 5 5 0; insert g1 6 6 1) = Some edge_test_grid
  ∧ query_box edge_test_grid 5 6 5 6 true true = Some [0%N; 1%N]
  ∧ query_box edge_test_grid 5 6 5 6 false false = Some []
  ∧ query_box edge_test_grid 5 6 5 6 true false = Some [0%N]
  ∧ query_box edge_test_grid 5 6 5 6 false true = Some [1%N].
Proof. repeat split; vm_compute; reflexivity. Qed.


(** ** Queries outside the grid bounds *)

Lemma corner_grid_built :
  build 0 10 1 0 10 1 [(1#2, 1#2, 7%N)] = Some corner_grid.
Proof. vm_compute. reflexivity. Qed.

(** C10: there are a reachable grid and a query rectangle entirely outside
    its bounds for which [query_box] returns a non-empty result.  On the
    grid over [[0, 10) x [0, 10)] with step 1 that holds identifier 7 at
    [(1/2, 1/2)], the rectangle [[-5, -1] x [-5, -1]] has [x2 < x_start] and
    [y2 < y_start], all four raw indices are negative and are clamped to 0,
    and the query returns the content [7] of the corner cell [(0, 0)]. *)
Theorem query_outside_bounds_returns_edge_cell :
  reachable corner_grid
  ∧ get_bounds corner_grid = (0, 10, 0, 10)%Q
  ∧ (-1 < x_start_ corner_grid)%Q ∧ (-1 < y_start_ corner_grid)%Q
  ∧ get_cell_range corner_grid (-5) (-1) (-5) (-1) true true = mkRange 0 0 0 0
  ∧ query_box corner_grid (-5) (-1) (-5) (-1) true true = Some [7%N].
Proof.
  split; [exact (build_reachable _ _ _ _ _ _ _ _ corner_grid_built)|].
  repeat split; vm_compute; reflexivity.
Qed.

(** ** Both boundaries of an axis on one excluded cell boundary *)

Lemma raw_index_on_boundary start step v k :
  ((v - start) / step == inject_Z k)%Q →
  raw_index start step v = k ∧ on_boundary start step v = true.
Proof.
  intros H.
  assert (Qfloor ((v - start) / step) = k) as Hk
    by (rewrite (Qfloor_comp _ _ H); apply Qfloor_Z).
  split; [exact Hk|].
  unfold on_boundary. apply Qeq_bool_iff. by rewrite Hk.
Qed.

Lemma same_boundary_lower_upper start step v1 v2 k :
  same_boundary start step v1 v2 k →
  ((lower v1 v2 - start) / step == inject_Z k)%Q
  ∧ ((upper v1 v2 - start) / step == inject_Z k)%Q.
Proof. intros [H1 H2]. unfold lower, upper. by destruct (Qgt_bool v1 v2). Qed.

(** With both edges excluded the axis resolves to the clamped indices
    [k + 1] and [k - 1]. *)
Lemma axis_range_same_boundary start step n v1 v2 k :
  same_boundary start step v1 v2 k →
  axis_min start step n (lower v1 v2) false = clamp_index n (k + 1)
  ∧ axis_max start step n (upper v1 v2) false = clamp_index n (k - 1).
Proof.
  intros H. apply same_boundary_lower_upper in H as [Hl Hu].
  apply raw_index_on_boundary in Hl as [Hl1 Hl2], Hu as [Hu1 Hu2].
  unfold axis_min, axis_max. by rewrite Hl1, Hl2, Hu1, Hu2.
Qed.


Lemma clamp_collapsed n k :
  1 ≤ n → ¬ (2 ≤ n ∧ 0 ≤ k ≤ n - 1) →
  clamp_index n (k + 1) = clamp_index n (k - 1).
Proof. unfold clamp_index. lia. Qed.

(** Outside that case the excluded axis resolves to a single edge cell: the
    clamp hides the inversion. *)
Lemma axis_range_collapsed start step n v1 v2 k :
  same_boundary start step v1 v2 k →
  1 ≤ n → ¬ (2 ≤ n ∧ 0 ≤ k ≤ n - 1) →
  axis_min start step n (lower v1 v2) false
  = axis_max start step n (upper v1 v2) false.
Proof.
  intros H Hn Hk. apply (axis_range_same_boundary _ _ n) in H as [-> ->].
  by apply clamp_collapsed.
Qed.









(** * Further properties of the code *)

(** ** What a query returns *)



(** X1: The appending mode of [query_box_no_alloc]: the destination keeps what it
    held, and the identifiers [query_box] returns for the same arguments
    follow. *)
Theorem query_box_no_alloc_appends (g : GridIndex2D) (x1 x2 y1 y2 : Q)
    (result : list N) (include_min include_max : bool) :
  query_box_no_alloc g x1 x2 y1 y2 result true include_min include_max
  = (λ ids, result ++ ids) <$> query_box g x1 x2 y1 y2 include_min include_max.
Proof.
  rewrite query_box_no_alloc_selected, query_box_selected.
  by destruct (selected_buckets _ _).
Qed.




(** ** Order properties of the coordinate-to-cell mapping *)






















(** ** The resolved range and the query rectangle *)

















(** ** The contents of the buckets after a sequence of insertions *)

Lemma insert_eq g x y index g' :
  grid_inv g → insert g x y index = Some g' →
  ∃ cell,
    grid_ g !! cell_of g x y = Some cell
    ∧ g' = with_grid g (<[cell_of g x y := cell ++ [index]]> (grid_ g)).
Proof.
  intros Hinv Hi. destruct (insert_spec g x y index Hinv) as (cell & Hc & Hi').
  rewrite Hi' in Hi. simplify_eq. exists cell. unfold cell_of, get_cell_id.
  by rewrite get_cell_x_spec, get_cell_y_spec.
Qed.

Lemma insert_all_buckets g pts g' c cell :
  grid_inv g → insert_all g pts = Some g' →
  grid_ g !! c = Some cell →
  grid_ g' !! c = Some (cell ++ ids_for_cell g c pts).
Proof.
  revert g cell. induction pts as [|[[x y] index] pts IH]; intros g cell Hinv H Hc.
  - simpl in H. simplify_eq. by rewrite app_nil_r.
  - simpl in H. destruct (insert g x y index) as [g1|] eqn:Hg1; simplify_eq/=.
    destruct (insert_eq _ _ _ _ _ Hinv Hg1) as (cell0 & Hc0 & ->).
    pose proof (insert_inv _ _ _ _ _ Hg1 Hinv) as Hinv1.
    unfold ids_for_cell. rewrite filter_cons. simpl.
    destruct (decide (cell_of g x y = c)) as [<-|Hne].
    + simplify_eq. erewrite (IH _ (cell ++ [index]) Hinv1 H).
      * by rewrite <- app_assoc.
      * simpl. apply list_lookup_insert_eq. by eapply lookup_lt_Some.
    + erewrite (IH _ cell Hinv1 H); [done|].
      simpl. by rewrite list_lookup_insert_ne.
Qed.

(** X7: After any sequence of [insert] calls on a reachable grid, each bucket
    holds what it held before, followed by the identifiers of exactly those
    calls whose point maps to its cell, in the order of the calls
    (duplicates included). *)
Theorem buckets_after_insertions (g g' : GridIndex2D)
    (pts : list (Q * Q * N)) (c : nat) (cell : list N) :
  reachable g →
  insert_all g pts = Some g' →
  grid_ g !! c = Some cell →
  grid_ g' !! c
  = Some (cell
          ++ ((λ p, p.2) <$> filter (λ p, cell_of g p.1.1 p.1.2 = c) pts)).
Proof. intros Hg. apply insert_all_buckets. by apply reachable_inv. Qed.

Lemma buckets_after_insertions_witness :
  reachable grid10
  ∧ ∃ g', insert_all grid10
            [(1#2, 1#2, 3%N); (7#1, 7#1, 8%N); (-1#1, -1#1, 3%N)] = Some g'
          ∧ grid_ g' !! 0%nat = Some [3%N; 3%N].
Proof.
  split; [exact grid10_reachable|].
  eexists. split; [vm_compute; reflexivity|].
  refine (buckets_after_insertions grid10 _
            [(1#2, 1#2, 3%N); (7#1, 7#1, 8%N); (-1#1, -1#1, 3%N)] 0 []
            grid10_reachable _ _); vm_compute; reflexivity.
Defined.

(** ** The example program: indexing loop and linear scan *)







Lemma naive_loop points x1 x2 y1 y2 pre rest acc :
  points = pre ++ rest →
  StronglySorted N.lt acc →
  (∀ id, id ∈ acc ↔
         (N.to_nat id < length pre)%nat ∧ id_in_box points x1 x2 y1 y2 id) →
  ∃ res,
    fold_opt (λ i result,
        p ← at_index points i;
        if Qge_bool (Point.x p) x1 && Qle_bool (Point.x p) x2 &&
           Qge_bool (Point.y p) y1 && Qle_bool (Point.y p) y2
        then Some (result ++ [Z.to_N i]) else Some result)
      (seqZ (Z.of_nat (length pre)) (Z.of_nat (length rest))) acc = Some res
    ∧ StronglySorted N.lt res
    ∧ ∀ id, id ∈ res ↔ id_in_box points x1 x2 y1 y2 id.
Proof.
  revert pre acc. induction rest as [|p rest IH]; intros pre acc -> Hsorted Hacc.
  - exists acc. split; [done|]. split; [done|].
    intros id. rewrite Hacc. split; [tauto|]. intros Hid. split; [|done].
    destruct Hid as (p & Hp & _). apply lookup_lt_Some in Hp.
    by rewrite app_nil_r in Hp.
  - rewrite seqZ_cons by (simpl; lia). simpl.
    rewrite at_index_lookup, Nat2Z.id, list_lookup_middle by (done || lia).
    simpl. replace (Z.to_N (Z.of_nat (length pre))) with (N.of_nat (length pre))
      by lia.
    replace (Z.succ (Z.of_nat (length pre)))
      with (Z.of_nat (length (pre ++ [p]))) by (rewrite length_app; simpl; lia).
    replace (Z.pred (Z.of_nat (S (length rest))))
      with (Z.of_nat (length rest)) by lia.
    assert (∀ id, N.to_nat id = length pre →
                  id_in_box (pre ++ p :: rest) x1 x2 y1 y2 id
                  ↔ in_box x1 x2 y1 y2 p) as Hhere.
    { intros id Hid. unfold id_in_box. rewrite Hid, list_lookup_middle by done.
      split; [by intros (? & [= <-] & ?) | eauto]. }
    destruct (Qge_bool (Point.x p) x1 && Qle_bool (Point.x p) x2 &&
              Qge_bool (Point.y p) y1 && Qle_bool (Point.y p) y2) eqn:Htest;
      simpl.
    + assert (in_box x1 x2 y1 y2 p) as Hp.
      { apply andb_true_iff in Htest as [[[H1 H2]%andb_true_iff
          H3]%andb_true_iff H4].
        apply Qge_bool_iff in H1, H3. apply Qle_bool_iff in H2, H4.
        by repeat split. }
      apply (IH (pre ++ [p])); [by rewrite <- app_assoc|..].
      * apply StronglySorted_app_2; [|done | repeat constructor].
        intros a b [Ha _]%Hacc ->%list_elem_of_singleton. lia.
      * intros id. rewrite elem_of_app, list_elem_of_singleton, Hacc, length_app.
        simpl. split.
        -- intros [[? ?]| ->]; [split; [lia | done]|].
           split; [lia|]. apply Hhere; [lia | done].
        -- intros [Hlt Hid].
           destruct (decide (N.to_nat id = length pre)) as [Heq|Hne];
             [right; lia | left; split; [lia | done]].
    + assert (¬ in_box x1 x2 y1 y2 p) as Hp.
      { intros [[H1 H2] [H3 H4]].
        apply Qge_bool_iff in H1, H3. apply Qle_bool_iff in H2, H4.
        by rewrite H1, H2, H3, H4 in Htest. }
      apply (IH (pre ++ [p])); [by rewrite <- app_assoc | done|].
      intros id. rewrite Hacc, length_app. simpl. split.
      * intros [? ?]. split; [lia | done].
      * intros [Hlt Hid]. split; [|done].
        destruct (decide (N.to_nat id = length pre)) as [Heq|Hne]; [|lia].
        exfalso. by apply Hp, (Hhere id).
Qed.

Lemma naive_box_search_result points x1 x2 y1 y2 :
  ∃ res,
    naive_box_search points x1 x2 y1 y2 = Some res
    ∧ StronglySorted N.lt res
    ∧ ∀ id, id ∈ res ↔ id_in_box points x1 x2 y1 y2 id.
Proof.
  unfold naive_box_search. rewrite for_range_fold. unfold index_range.
  replace (Z.of_nat (length points) - 1 + 1 - 0) with (Z.of_nat (length points))
    by lia.
  destruct (naive_loop points x1 x2 y1 y2 [] points []) as (res & Hres & Hs & Hm).
  - done.
  - constructor.
  - intros id. split; [by intros ?%elem_of_nil | simpl; lia].
  - by exists res.
Qed.

(** X8: The linear scan returns, in ascending order, exactly the indices of the
    points that pass its inclusive test [x1 <= x <= x2], [y1 <= y <= y2].
    It does not reorder the corners: with [x1 > x2] or [y1 > y2] no point
    passes. *)
Theorem naive_box_search_spec (points : list Point.Point) (x1 x2 y1 y2 : Q) :
  ∃ res,
    naive_box_search points x1 x2 y1 y2 = Some res
    ∧ StronglySorted N.lt res
    ∧ (∀ id, id ∈ res ↔ id_in_box points x1 x2 y1 y2 id)
    ∧ ((x2 < x1)%Q ∨ (y2 < y1)%Q → res = []).
Proof.
  destruct (naive_box_search_result points x1 x2 y1 y2)
    as (res & Hres & Hs & Hm).
  exists res. split; [exact Hres|]. split; [done|]. split; [done|].
  intros Hswap. destruct res as [|id res]; [done|]. exfalso.
  destruct (proj1 (Hm id)) as (p & _ & [[? ?] [? ?]]); [by left|].
  destruct Hswap; lra.
Qed.













(** ** Queries that cover the whole grid *)








(** ** The effect of one insertion on the queries *)








(** ** The excluded lower edge *)





(** ** Clearing and fresh grids *)







(** ** Order of insertions and extent of the grid *)





